(** * Symbolic tensors of nodejs-tensorflow: the graph-construction core.

    The repository declares the [Tensor] interface
    (src/core/tensor/interface.ts) whose methods build a computation
    graph: every operator registers a new [Operation] in the [Graph] of its
    operands and returns the [Tensor] handle of one output slot.  The
    interface file fixes the method signatures and their documented dtype
    rules; the operation bodies, [TensorShape], [Graph] and [Operation] are
    not part of the sources, so they are modelled from the repository's
    specification below and marked as such. *)

From Stdlib Require Import Lia.
From stdpp Require Import base list gmap strings pretty.

(* ------------------------------------------------------------------ *)
(** ** Errors raised at graph-construction time *)

Inductive error :=
  | TypeError
  | ShapeMismatch
  | RankError
  | InvalidArgument
  | GraphMismatch
  | InvalidIndex
  | DuplicateName
  | DTypeMismatch.

Inductive result (A : Type) :=
  | Ok (a : A)
  | Err (e : error).
Arguments Ok {A} a.
Arguments Err {A} e.

Definition bind {A B} (m : result A) (k : A -> result B) : result B :=
  match m with
  | Ok a => k a
  | Err e => Err e
  end.

Notation "'let*' x := m 'in' k" := (bind m (fun x => k))
  (at level 200, x name, m at level 100, k at level 200).

(** Raise [e] unless [b] holds. *)
Definition guard (b : bool) (e : error) : result unit :=
  if b then Ok tt else Err e.

(* ------------------------------------------------------------------ *)
(** ** DType (the element types named in the interface's doc comments) *)

Inductive DType :=
  | half | bfloat16 | float32 | float64
  | uint8 | uint16 | uint32 | uint64
  | int8 | int16 | int32 | int64
  | complex64 | complex128
  | string_ | bool_.

Global Instance DType_eq_dec : EqDecision DType.
Proof. solve_decision. Defined.

Definition dtype_eqb (a b : DType) : bool := bool_decide (a = b).

(* ------------------------------------------------------------------ *)
(** ** TensorShape

    Modelled from the spec: TensorShape (src/core/tensorShape is not in the
    sources).  A shape is either of unknown rank or an ordered list of
    dimensions, each a known size or unknown. *)

Definition dim := option nat.

Inductive TensorShape :=
  | UnknownRank
  | Known (dims : list dim).

(** Modelled from the spec: the broadcast rule for one aligned pair of
    dimensions: equal sizes, an unknown size, or a size 1 that stretches
    to the other are compatible; anything else is a [ShapeMismatch]. *)
Definition broadcast_dim (d1 d2 : dim) : result dim :=
  match d1, d2 with
  | Some a, Some b =>
      if Nat.eqb a b then Ok (Some a)
      else if Nat.eqb a 1 then Ok (Some b)
      else if Nat.eqb b 1 then Ok (Some a)
      else Err ShapeMismatch
  | None, Some b => Ok (if Nat.eqb b 1 then None else Some b)
  | Some a, None => Ok (if Nat.eqb a 1 then None else Some a)
  | None, None => Ok None
  end.

(** Dimensions listed from the last axis backward; the longer shape's
    leading axes pass through. *)
Fixpoint broadcast_rev (a b : list dim) : result (list dim) :=
  match a, b with
  | [], _ => Ok b
  | _, [] => Ok a
  | d1 :: a', d2 :: b' =>
      let* d := broadcast_dim d1 d2 in
      let* r := broadcast_rev a' b' in
      Ok (d :: r)
  end.

(** Modelled from the spec: trailing-dimension broadcasting; unknown rank
    yields unknown rank. *)
Definition broadcast (s1 s2 : TensorShape) : result TensorShape :=
  match s1, s2 with
  | Known l1, Known l2 =>
      let* r := broadcast_rev (rev l1) (rev l2) in
      Ok (Known (rev r))
  | _, _ => Ok UnknownRank
  end.

(** Modelled from the spec: merging a known dimension with an unknown one
    gives the known one; two known ones must agree. *)
Definition merge_dim (d1 d2 : dim) : result dim :=
  match d1, d2 with
  | None, d => Ok d
  | d, None => Ok d
  | Some a, Some b => if Nat.eqb a b then Ok (Some a) else Err ShapeMismatch
  end.

Fixpoint merge_dims (l1 l2 : list dim) : result (list dim) :=
  match l1, l2 with
  | [], [] => Ok []
  | d1 :: l1', d2 :: l2' =>
      let* d := merge_dim d1 d2 in
      let* r := merge_dims l1' l2' in
      Ok (d :: r)
  | _, _ => Err ShapeMismatch
  end.

(** Modelled from the spec: [TensorShape.merge] (also used by [setShape]). *)
Definition merge (s1 s2 : TensorShape) : result TensorShape :=
  match s1, s2 with
  | UnknownRank, s => Ok s
  | s, UnknownRank => Ok s
  | Known l1, Known l2 =>
      let* r := merge_dims l1 l2 in
      Ok (Known r)
  end.

(** [t] is at least as specific as [s]. *)
Definition dim_refines (e d : dim) : Prop := d = None \/ e = d.

Definition refines (t s : TensorShape) : Prop :=
  match t, s with
  | _, UnknownRank => True
  | Known lt, Known ls => Forall2 dim_refines lt ls
  | UnknownRank, Known _ => False
  end.

(** Compatibility of two aligned dimensions under broadcasting. *)
Definition dim_compat (d1 d2 : dim) : Prop :=
  match d1, d2 with
  | Some a, Some b => a = b \/ a = 1 \/ b = 1
  | _, _ => True
  end.


(* ------------------------------------------------------------------ *)
(** ** Tensor, Operation and Graph *)

(** The binary operators of the interface, forward forms. *)
Inductive BinOp :=
  | Add | Sub | Mul | Div | FloorDiv | Mod | Pow
  | And | Or | Xor | TrueDiv
  | Ge | Gt | Le | Lt.

(** The reflected forms [rAdd] ... [rXor], [rTrueDiv]. *)
Inductive RBinOp :=
  | RAdd | RSub | RMul | RDiv | RFloorDiv | RMod | RPow
  | RAnd | ROr | RXor | RTrueDiv.

Definition rbinop_forward (r : RBinOp) : BinOp :=
  match r with
  | RAdd => Add | RSub => Sub | RMul => Mul | RDiv => Div
  | RFloorDiv => FloorDiv | RMod => Mod | RPow => Pow
  | RAnd => And | ROr => Or | RXor => Xor | RTrueDiv => TrueDiv
  end.

Inductive UnOp := Abs | Neg | Invert.

(** The type tag of an [Operation]: which algebra function created it. *)
Inductive OpType :=
  | TPlaceholder
  | TBin (o : BinOp)
  | TUn (u : UnOp)
  | TMatMul
  | TSparseMatMul.

(** A [Tensor] is a handle on output [valueIndex] of operation [op]
    (operations are numbered in registration order); [graph] is the
    graph of [op]. *)
Record Tensor := mkTensor {
  t_op : nat;
  t_valueIndex : nat;
  t_dtype : DType;
  t_shape : TensorShape;
  t_graph : nat
}.

(** Modelled from the spec: Operation (src/core/operation is not in the
    sources): a named node with its type tag, ordered inputs, ordered
    declared outputs (dtype, shape) and its owning graph. *)
Record Operation := mkOperation {
  o_name : string;
  o_type : OpType;
  o_inputs : list Tensor;
  o_outputs : list (DType * TensorShape);
  o_graph : nat
}.

(** Modelled from the spec: the graphs' state (src/core/graph is not in the
    sources): every registered operation in registration order, and the
    canonical Tensor handle of each initialised output slot
    [(op, valueIndex)]. *)
Record World := mkWorld {
  w_ops : list Operation;
  w_handles : gmap (nat * nat) Tensor
}.

Definition name_taken (w : World) (g : nat) (n : string) : bool :=
  existsb (fun o => Nat.eqb (o_graph o) g && bool_decide (o_name o = n)) (w_ops w).

Definition suffixed (base : string) (k : nat) : string :=
  base +:+ "_" +:+ pretty k.

(** First free name [base_k] of graph [g]. *)
Definition fresh_name (w : World) (g : nat) (base : string) : string :=
  match list_find (fun k => name_taken w g (suffixed base k) = false)
          (seq 0 (S (length (w_ops w)))) with
  | Some (_, k) => suffixed base k
  | None => base
  end.

Definition optype_name (t : OpType) : string :=
  match t with
  | TPlaceholder => "Placeholder"
  | TBin o =>
      match o with
      | Add => "Add" | Sub => "Sub" | Mul => "Mul" | Div => "Div"
      | FloorDiv => "FloorDiv" | Mod => "Mod" | Pow => "Pow"
      | And => "LogicalAnd" | Or => "LogicalOr" | Xor => "LogicalXor"
      | TrueDiv => "TrueDiv"
      | Ge => "GreaterEqual" | Gt => "Greater" | Le => "LessEqual" | Lt => "Less"
      end
  | TUn u => match u with Abs => "Abs" | Neg => "Neg" | Invert => "LogicalNot" end
  | TMatMul => "MatMul"
  | TSparseMatMul => "SparseMatMul"
  end.

(** Modelled from the spec: Operation construction; a requested name that
    already exists in the graph fails with [DuplicateName].  Returns the
    number of the new operation. *)
Definition add_op (w : World) (name : option string) (ty : OpType)
    (inputs : list Tensor) (outputs : list (DType * TensorShape)) (g : nat)
    : result (nat * World) :=
  let* n :=
    match name with
    | Some n => if name_taken w g n then Err DuplicateName else Ok n
    | None => Ok (fresh_name w g (optype_name ty))
    end in
  Ok (length (w_ops w),
      mkWorld (w_ops w ++ [mkOperation n ty inputs outputs g]) (w_handles w)).

(** Modelled from the spec: [init(op, valueIndex, dtype)] of the interface
    (line 54): binds a handle to output [valueIndex] of [op] and registers it
    as the canonical handle of that slot; an already registered slot keeps
    its handle. *)
Definition init (w : World) (op valueIndex : nat) (dtype : DType)
    : result (Tensor * World) :=
  match w_ops w !! op with
  | None => Err InvalidIndex
  | Some o =>
      match o_outputs o !! valueIndex with
      | None => Err InvalidIndex
      | Some (dt, sh) =>
          let* _ := guard (dtype_eqb dtype dt) DTypeMismatch in
          match w_handles w !! (op, valueIndex) with
          | Some t => Ok (t, w)
          | None =>
              let t := mkTensor op valueIndex dtype sh (o_graph o) in
              Ok (t, mkWorld (w_ops w) (<[(op, valueIndex) := t]> (w_handles w)))
          end
      end
  end.

(* ------------------------------------------------------------------ *)
(** ** DType rules of the operators

    Taken from the interface's doc comments: the accepted element types of
    each operator, "must have the same type as x", and the result type.
    [mul], [trueDiv] and [xor] are documented only as TODO; for them the
    spec's rule applies (arithmetic on numeric types, [xor] on booleans). *)

Definition add_types : list DType :=
  [half; bfloat16; float32; float64; uint8; int8; int16; int32; int64;
   complex64; complex128; string_].
Definition sub_types : list DType :=
  [half; bfloat16; float32; float64; uint8; uint16; int8; int16; int32; int64;
   complex64; complex128].
Definition real_types : list DType :=
  [half; bfloat16; float32; float64; uint8; uint16; uint32; uint64;
   int8; int16; int32; int64].
Definition numeric_types : list DType := real_types ++ [complex64; complex128].
Definition mod_types : list DType := [int32; int64; bfloat16; float32; float64].
Definition pow_types : list DType := [float32; float64; int32; int64; complex64; complex128].
Definition cmp_types : list DType :=
  [float32; float64; int8; int16; int32; int64; uint8; uint16; uint32; uint64;
   bfloat16; half].
Definition abs_types : list DType := [float32; float64; int32; int64; complex64; complex128].
Definition neg_types : list DType :=
  [half; bfloat16; float32; float64; int32; int64; complex64; complex128].
Definition matmul_types : list DType :=
  [half; float32; float64; int32; complex64; complex128].

Definition in_types (d : DType) (ts : list DType) : bool := bool_decide (d ∈ ts).

(** x and y of one accepted type, result of that type. *)
Definition same_type_in (ts : list DType) (a b : DType) : result DType :=
  if in_types a ts && dtype_eqb a b then Ok a else Err TypeError.

Definition binop_dtype (o : BinOp) (a b : DType) : result DType :=
  match o with
  | Add => same_type_in add_types a b
  | Sub => same_type_in sub_types a b
  | Mul | TrueDiv => same_type_in numeric_types a b
  | Div | FloorDiv => same_type_in real_types a b
  | Mod => same_type_in mod_types a b
  | Pow => if in_types a pow_types && in_types b pow_types then Ok a else Err TypeError
  | And | Or | Xor => same_type_in [bool_] a b
  | Ge | Gt | Le | Lt =>
      let* _ := same_type_in cmp_types a b in Ok bool_
  end.

(** [abs]: "the same size and type as x ... for complex64 or complex128
    input, the returned Tensor will be of type float32 or float64". *)
Definition abs_result_dtype (a : DType) : DType :=
  match a with
  | complex64 => float32
  | complex128 => float64
  | _ => a
  end.

Definition unop_dtype (u : UnOp) (a : DType) : result DType :=
  match u with
  | Abs => if in_types a abs_types then Ok (abs_result_dtype a) else Err TypeError
  | Neg => if in_types a neg_types then Ok a else Err TypeError
  | Invert => if dtype_eqb a bool_ then Ok bool_ else Err TypeError
  end.

(* ------------------------------------------------------------------ *)
(** ** The operator algebra

    Modelled from the spec: the bodies of the operator methods are not in
    the sources.  A binary operator (1) checks the dtypes, (2) broadcasts
    the shapes, (3) registers an operation tagged with the operator, inputs
    [[x; y]], in the graph of [x] (failing with [GraphMismatch] when [y]
    lives elsewhere), and (4) returns the handle of its single output. *)
Definition binop_call (o : BinOp) (x y : Tensor) (name : option string) (w : World)
    : result (Tensor * World) :=
  let* dt := binop_dtype o (t_dtype x) (t_dtype y) in
  let* sh := broadcast (t_shape x) (t_shape y) in
  let* _ := guard (Nat.eqb (t_graph y) (t_graph x)) GraphMismatch in
  let* r := add_op w name (TBin o) [x; y] [(dt, sh)] (t_graph x) in
  let '(id, w1) := r in
  init w1 id 0 dt.

(** [add(x, y, name?)]; [mul], [trueDiv] and [xor] have no [name]
    parameter and call [binop_call] with [None]. *)
Definition add (x y : Tensor) (name : option string) (w : World) := binop_call Add x y name w.

(** Modelled from the spec: a reflected operator ([rAdd(x, y, name?)] and
    the others) receives the operands already in the canonical order
    [(x, y)] and delegates to its forward counterpart. *)
Definition rbinop_call (r : RBinOp) (x y : Tensor) (name : option string) (w : World)
    : result (Tensor * World) :=
  binop_call (rbinop_forward r) x y name w.

Definition rAdd (x y : Tensor) (name : option string) (w : World) := rbinop_call RAdd x y name w.

(** Modelled from the spec: unary operators: one input; the shape passes
    through and the dtype follows [unop_dtype]. *)
Definition unop_call (u : UnOp) (x : Tensor) (name : option string) (w : World)
    : result (Tensor * World) :=
  let* dt := unop_dtype u (t_dtype x) in
  let* r := add_op w name (TUn u) [x] [(dt, t_shape x)] (t_graph x) in
  let '(id, w1) := r in
  init w1 id 0 dt.

(** Modelled from the spec: SparseTensor (src/core/sparseTensor is not in
    the sources): indices and values tensors and a dense shape; its dtype
    is the dtype of its values. *)
Record SparseTensor := mkSparseTensor {
  sp_indices : Tensor;
  sp_values : Tensor;
  sp_denseShape : TensorShape
}.

(** [Tensor | SparseTensor] *)
Inductive TensorLike :=
  | Dense (t : Tensor)
  | Sparse (s : SparseTensor).

Definition tl_dtype (x : TensorLike) : DType :=
  match x with Dense t => t_dtype t | Sparse s => t_dtype (sp_values s) end.

Definition tl_shape (x : TensorLike) : TensorShape :=
  match x with Dense t => t_shape t | Sparse s => sp_denseShape s end.

(** [abs(x: Tensor | SparseTensor, name?)]: a sparse input gets [abs] of its
    values and keeps its indices and dense shape. *)
Definition abs (x : TensorLike) (name : option string) (w : World)
    : result (TensorLike * World) :=
  match x with
  | Dense t =>
      let* r := unop_call Abs t name w in
      let '(t', w') := r in Ok (Dense t', w')
  | Sparse s =>
      let* r := unop_call Abs (sp_values s) name w in
      let '(v', w') := r in
      Ok (Sparse (mkSparseTensor (sp_indices s) v' (sp_denseShape s)), w')
  end.

Definition neg (x : Tensor) (name : option string) (w : World) := unop_call Neg x name w.
Definition invert (x : Tensor) (name : option string) (w : World) := unop_call Invert x name w.

(** The batch axes and the last two axes of a shape of rank >= 2. *)
Definition last_two (l : list dim) : option (list dim * dim * dim) :=
  match rev l with
  | a2 :: a1 :: rb => Some (rev rb, a1, a2)
  | _ => None
  end.

Definition rank_at_least_2 (s : TensorShape) : bool :=
  match s with
  | Known l => Nat.leb 2 (length l)
  | UnknownRank => true
  end.

(** Modelled from the spec: output shape of [matMul]; [transA]/[transB]
    say whether the operand is transposed (or adjointed) first. *)
Definition matmul_shape (transA transB : bool) (sx sy : TensorShape)
    : result TensorShape :=
  let* _ := guard (rank_at_least_2 sx && rank_at_least_2 sy) RankError in
  match sx, sy with
  | Known lx, Known ly =>
      match last_two lx, last_two ly with
      | Some (bx, x1, x2), Some (bys, y1, y2) =>
          let '(rowsX, innerX) := if transA then (x2, x1) else (x1, x2) in
          let '(innerY, colsY) := if transB then (y2, y1) else (y1, y2) in
          let* _ := merge_dim innerX innerY in
          let* b := broadcast (Known bx) (Known bys) in
          match b with
          | Known bs => Ok (Known (bs ++ [rowsX; colsY]))
          | UnknownRank => Ok UnknownRank
          end
      | _, _ => Err RankError
      end
  | _, _ => Ok UnknownRank
  end.

(** Modelled from the spec: [matMul(x, y, transposeA?, transposeB?,
    adjointA?, adjointB?, aIsSparse?, bIsSparse?, name?)] (interface line
    178); absent flags are [false].  Transpose and adjoint of one operand
    exclude each other; the sparse hints only select the type tag. *)
Definition matMul (x y : Tensor) (transposeA transposeB adjointA adjointB
    aIsSparse bIsSparse : bool) (name : option string) (w : World)
    : result (Tensor * World) :=
  let* _ := guard (negb (transposeA && adjointA) && negb (transposeB && adjointB))
              InvalidArgument in
  let* sh := matmul_shape (transposeA || adjointA) (transposeB || adjointB)
               (t_shape x) (t_shape y) in
  let* dt := same_type_in matmul_types (t_dtype x) (t_dtype y) in
  let* _ := guard (Nat.eqb (t_graph y) (t_graph x)) GraphMismatch in
  let* r := add_op w name (if aIsSparse || bIsSparse then TSparseMatMul else TMatMul)
              [x; y] [(dt, sh)] (t_graph x) in
  let '(id, w1) := r in
  init w1 id 0 dt.

(** [rMatMul] delegates to [matMul] with the same arguments. *)
Definition rMatMul (x y : Tensor) (transposeA transposeB adjointA adjointB
    aIsSparse bIsSparse : bool) (name : option string) (w : World) :=
  matMul x y transposeA transposeB adjointA adjointB aIsSparse bIsSparse name w.

(** Modelled from the spec: [eq(other: Tensor): boolean] (interface line
    101) compares handles: same operation, same output slot, same graph. *)
Module TensorHandle.
Definition eq (this other : Tensor) : bool :=
  Nat.eqb (t_op this) (t_op other)
  && Nat.eqb (t_valueIndex this) (t_valueIndex other)
  && Nat.eqb (t_graph this) (t_graph other).
End TensorHandle.

(** The signatures of the interface methods that take or return no graph
    state, over the external [Session] type: [eq(other): boolean] and
    [eval(feedDict: Tensor[], session?: Session): Tensor[]], each with its
    receiver [this]. *)
Record TensorInterface (Session : Type) := {
  ti_eq : Tensor -> Tensor -> bool;
  ti_eval : Tensor -> list Tensor -> option Session -> list Tensor
}.
Arguments ti_eq {Session} _ _ _.
Arguments ti_eval {Session} _ _ _ _.

(** Every registered handle belongs to a registered operation. *)
Definition wf (w : World) : Prop :=
  map_Forall (fun (k : nat * nat) (_ : Tensor) => k.1 < length (w_ops w)) (w_handles w).

(** Every registered handle is the output of its slot, as the interface's
    fields say: [op] produces the tensor as output [valueIndex], and its
    [dtype], [shape] and [graph] are those of that output. *)
Definition consistent (w : World) : Prop :=
  map_Forall (fun (k : nat * nat) (t : Tensor) =>
    t_op t = k.1 /\ t_valueIndex t = k.2 /\
    exists o, w_ops w !! k.1 = Some o /\
              o_outputs o !! k.2 = Some (t_dtype t, t_shape t) /\
              t_graph t = o_graph o) (w_handles w).

(** Peels the successful steps of a [let*] chain in hypothesis [H]. *)
Ltac peel H :=
  repeat match type of H with
  | bind ?m _ = Ok _ =>
      let E := fresh "E" in
      destruct m eqn:E; cbn [bind] in H; [|discriminate H]
  end.

(* ------------------------------------------------------------------ *)
(** ** Sample graphs *)

(** A graph [g] holding one placeholder operation with the given outputs. *)
Definition placeholder_world (g : nat) (outs : list (DType * TensorShape)) : World :=
  mkWorld [mkOperation "Placeholder" TPlaceholder [] outs g] ∅.

Definition known (l : list nat) : TensorShape := Known (map Some l).



(** Tensors of the sample graphs. *)
Definition x_f32 : Tensor := mkTensor 0 0 float32 (known [2; 3]) 0.
Definition y_f32 : Tensor := mkTensor 0 1 float32 (known [3]) 0.
Definition graph0 : World :=
  placeholder_world 0 [(float32, known [2; 3]); (float32, known [3])].

(** Two graphs, numbered 0 and 1, one placeholder each. *)
Definition x_i32_g0 : Tensor := mkTensor 0 0 int32 (known [2]) 0.
Definition y_bool_g1 : Tensor := mkTensor 1 0 bool_ (known [2]) 1.
Definition y_i32_g1 : Tensor := mkTensor 1 1 int32 (known [2]) 1.
Definition two_graphs : World :=
  mkWorld [mkOperation "Placeholder" TPlaceholder [] [(int32, known [2])] 0;
           mkOperation "Placeholder" TPlaceholder [] [(bool_, known [2]); (int32, known [2])] 1]
          ∅.

(** A second operand in graph 1 whose shape does not broadcast with [[2]]. *)
Definition y_i32_g1_wide : Tensor := mkTensor 1 0 int32 (known [3]) 1.
Definition two_graphs_wide : World :=
  mkWorld [mkOperation "Placeholder" TPlaceholder [] [(int32, known [2])] 0;
           mkOperation "Placeholder" TPlaceholder [] [(int32, known [3])] 1]
          ∅.

(** Two matrices of graph 0, of shapes [[2,3]] and [[3,4]]. *)
Definition y_mat : Tensor := mkTensor 0 1 float32 (known [3; 4]) 0.
Definition graph_mm : World :=
  placeholder_world 0 [(float32, known [2; 3]); (float32, known [3; 4])].

(** Batched matrices of graph 0, of shapes [[?,3,4]] and [[2,4,5]]. *)
Definition x_batch : Tensor := mkTensor 0 0 float32 (Known [None; Some 3; Some 4]) 0.
Definition y_batch : Tensor := mkTensor 0 1 float32 (known [2; 4; 5]) 0.
Definition graph_batch : World :=
  placeholder_world 0 [(float32, Known [None; Some 3; Some 4]); (float32, known [2; 4; 5])].

Definition x_c64 : Tensor := mkTensor 0 0 complex64 (known [4]) 0.
Definition graph_c64 : World := placeholder_world 0 [(complex64, known [4])].

Definition x_str : Tensor := mkTensor 0 0 string_ (known [2]) 0.
Definition graph_str : World := placeholder_world 0 [(string_, known [2])].

(* ------------------------------------------------------------------ *)
(** ** Examples *)

Example broadcast_ex1 :
  broadcast (Known [Some 2; Some 1; Some 4]) (Known [Some 3; None])
  = Ok (Known [Some 2; Some 3; Some 4]).
Proof. reflexivity. Qed.

Example merge_ex1 :
  merge (Known [Some 3; None]) (Known [None; Some 4]) = Ok (Known [Some 3; Some 4]).
Proof. reflexivity. Qed.

Example matmul_ex1 :
  matmul_shape false false (known [2; 3; 4]) (known [2; 4; 5]) = Ok (known [2; 3; 5]).
Proof. reflexivity. Qed.

Example matmul_ex2 :
  matmul_shape false false (known [2; 3; 4]) (known [3; 4; 5]) = Err ShapeMismatch.
Proof. reflexivity. Qed.

Example add_ex1 :
  match add x_f32 y_f32 None graph0 with
  | Ok (t, w') => t_shape t = known [2; 3] /\ t_op t = 1 /\
                  (o_name <$> w_ops w' !! 1) = Some "Add_0"
  | Err _ => False
  end.
Proof. vm_compute. auto. Qed.

(* ------------------------------------------------------------------ *)
(** ** Broadcasting *)

Lemma broadcast_dim_comm d1 d2 : broadcast_dim d1 d2 = broadcast_dim d2 d1.
Proof.
  destruct d1 as [a|], d2 as [b|]; simpl; auto.
  destruct (Nat.eqb_spec a b), (Nat.eqb_spec b a); subst; try lia; auto.
  destruct (Nat.eqb_spec a 1), (Nat.eqb_spec b 1); subst; auto.
Qed.

Lemma broadcast_dim_ok d1 d2 : (exists d, broadcast_dim d1 d2 = Ok d) <-> dim_compat d1 d2.
Proof.
  destruct d1 as [a|], d2 as [b|]; simpl; split; eauto.
  - destruct (Nat.eqb_spec a b); [auto|].
    destruct (Nat.eqb_spec a 1); [auto|].
    destruct (Nat.eqb_spec b 1); [auto|]. intros [? [=]].
  - destruct (Nat.eqb_spec a b); eauto.
    destruct (Nat.eqb_spec a 1); eauto.
    destruct (Nat.eqb_spec b 1); eauto. lia.
Qed.

Lemma broadcast_dim_err d1 d2 e : broadcast_dim d1 d2 = Err e -> e = ShapeMismatch.
Proof.
  destruct d1 as [a|], d2 as [b|]; simpl; try discriminate.
  repeat case_match; congruence.
Qed.

Lemma broadcast_dim_one d : broadcast_dim (Some 1) d = Ok d /\ broadcast_dim d (Some 1) = Ok d.
Proof.
  destruct d as [[|[|b]]|]; simpl; auto.
Qed.

Lemma broadcast_rev_comm a b : broadcast_rev a b = broadcast_rev b a.
Proof.
  revert b; induction a as [|d1 a IH]; intros [|d2 b]; simpl; auto.
  rewrite broadcast_dim_comm, IH. reflexivity.
Qed.

Lemma broadcast_rev_err a b e : broadcast_rev a b = Err e -> e = ShapeMismatch.
Proof.
  revert b; induction a as [|d1 a IH]; intros [|d2 b]; simpl; try discriminate.
  destruct (broadcast_dim d1 d2) eqn:Hd; simpl.
  - destruct (broadcast_rev a b) eqn:Hr; simpl; [discriminate|].
    intros [= <-]. eauto.
  - intros [= <-]. eauto using broadcast_dim_err.
Qed.

Lemma broadcast_rev_ok a b :
  (exists r, broadcast_rev a b = Ok r) <->
  (forall i d1 d2, a !! i = Some d1 -> b !! i = Some d2 -> dim_compat d1 d2).
Proof.
  revert b; induction a as [|d1 a IH]; intros [|d2 b]; simpl.
  - split; eauto. intros _ i ? ? [=].
  - split; eauto. intros _ i ? ? [=].
  - split; eauto. intros _ i ? ? ? [=].
  - split.
    + intros [r Hr] [|i] e1 e2; simpl.
      * intros [= <-] [= <-]. apply broadcast_dim_ok.
        destruct (broadcast_dim d1 d2); simpl in Hr; eauto; discriminate.
      * destruct (broadcast_dim d1 d2); simpl in Hr; [|discriminate].
        destruct (broadcast_rev a b) eqn:Hab; simpl in Hr; [|discriminate].
        apply IH; eauto.
    + intros H.
      destruct (proj2 (broadcast_dim_ok d1 d2) (H 0 d1 d2 eq_refl eq_refl)) as [d Hd].
      destruct (proj2 (IH b) (fun i => H (S i))) as [r Hr].
      rewrite Hd, Hr. simpl. eauto.
Qed.

Lemma broadcast_rev_lookup a b r :
  broadcast_rev a b = Ok r ->
  forall i,
    (a !! i = None -> r !! i = b !! i) /\
    (b !! i = None -> r !! i = a !! i) /\
    (forall d1 d2, a !! i = Some d1 -> b !! i = Some d2 ->
       exists d, broadcast_dim d1 d2 = Ok d /\ r !! i = Some d).
Proof.
  revert b r; induction a as [|d1 a IH]; intros [|d2 b] r; simpl.
  - intros [= <-] i. split; [auto|]. split; [auto|]. intros ? ? [=].
  - intros [= <-] i. split; [auto|]. split; [intros; rewrite lookup_nil in *; auto|].
    intros ? ? [=].
  - intros [= <-] i. split; [intros; rewrite lookup_nil in *; auto|]. split; [auto|].
    intros ? ? ? [=].
  - destruct (broadcast_dim d1 d2) as [d|] eqn:Hd; simpl; [|discriminate].
    destruct (broadcast_rev a b) as [r'|] eqn:Hr; simpl; [|discriminate].
    intros [= <-] [|i]; simpl.
    + split; [discriminate|]. split; [discriminate|].
      intros ? ? [= <-] [= <-]. eauto.
    + apply IH; auto.
Qed.

(** Broadcasting two fully known shapes gives a fully known shape. *)
Lemma broadcast_rev_known a b :
  (exists e, broadcast_rev (map Some a) (map Some b) = Err e) \/
  (exists r, broadcast_rev (map Some a) (map Some b) = Ok (map Some r)).
Proof.
  revert b; induction a as [|x a IH]; intros [|y b].
  - right. exists []. reflexivity.
  - right. exists (y :: b). reflexivity.
  - right. exists (x :: a). reflexivity.
  - simpl. destruct (Nat.eqb x y), (Nat.eqb x 1), (Nat.eqb y 1); simpl; eauto;
  destruct (IH b) as [[e ->]|[r ->]]; simpl; eauto;
  right; eexists (_ :: r); reflexivity.
Qed.

Lemma broadcast_known l1 l2 :
  broadcast (Known l1) (Known l2) =
  bind (broadcast_rev (rev l1) (rev l2)) (fun r => Ok (Known (rev r))).
Proof. reflexivity. Qed.

Lemma broadcast_known_ok l1 l2 r :
  broadcast (Known l1) (Known l2) = Ok (Known r) <->
  broadcast_rev (rev l1) (rev l2) = Ok (rev r).
Proof.
  rewrite broadcast_known.
  destruct (broadcast_rev (rev l1) (rev l2)) as [r'|] eqn:H; simpl; split; try discriminate.
  - intros [= <-]. rewrite rev_involutive. reflexivity.
  - intros [= ->]. rewrite rev_involutive. reflexivity.
Qed.

(* ------------------------------------------------------------------ *)
(** ** Merge *)

Lemma merge_dim_refl d : merge_dim d d = Ok d.
Proof. destruct d as [a|]; simpl; auto. rewrite Nat.eqb_refl. reflexivity. Qed.

Lemma merge_dims_refl l : merge_dims l l = Ok l.
Proof. induction l as [|d l IH]; simpl; auto. rewrite merge_dim_refl, IH. reflexivity. Qed.

Lemma dim_refines_refl d : dim_refines d d.
Proof. right. reflexivity. Qed.

Lemma Forall2_dim_refines_refl l : Forall2 dim_refines l l.
Proof. induction l; constructor; auto using dim_refines_refl. Qed.

Lemma refines_unknown t : refines t UnknownRank.
Proof. destruct t; exact I. Qed.

Lemma refines_refl s : refines s s.
Proof. destruct s; simpl; auto using Forall2_dim_refines_refl. Qed.

Lemma merge_dim_spec d1 d2 :
  match merge_dim d1 d2 with
  | Ok m => dim_refines m d1 /\ dim_refines m d2 /\
            forall e, dim_refines e d1 -> dim_refines e d2 -> dim_refines e m
  | Err err => err = ShapeMismatch /\ ~ exists e, dim_refines e d1 /\ dim_refines e d2
  end.
Proof.
  unfold dim_refines.
  destruct d1 as [a|], d2 as [b|]; simpl.
  - destruct (Nat.eqb_spec a b) as [<-|Hab].
    + split; [auto|]. split; [auto|]. intros e [H|H] _; auto.
    + split; [auto|]. intros (e & [H1|H1] & [H2|H2]); congruence.
  - split; [auto|]. split; [auto|]. intros e H _; auto.
  - split; [auto|]. split; [auto|]. intros e _ H; auto.
  - split; [auto|]. split; [auto|]. intros e H _; auto.
Qed.

Lemma merge_dims_spec l1 l2 :
  match merge_dims l1 l2 with
  | Ok m => Forall2 dim_refines m l1 /\ Forall2 dim_refines m l2 /\
            forall t, Forall2 dim_refines t l1 -> Forall2 dim_refines t l2 ->
                      Forall2 dim_refines t m
  | Err err => err = ShapeMismatch /\
               ~ exists t, Forall2 dim_refines t l1 /\ Forall2 dim_refines t l2
  end.
Proof.
  revert l2; induction l1 as [|d1 l1 IH]; intros [|d2 l2]; simpl.
  - split; [constructor|]. split; [constructor|]. auto.
  - split; [auto|]. intros (t & H1 & H2).
    apply Forall2_length in H1, H2. simpl in *. lia.
  - split; [auto|]. intros (t & H1 & H2).
    apply Forall2_length in H1, H2. simpl in *. lia.
  - pose proof (merge_dim_spec d1 d2) as Hd.
    destruct (merge_dim d1 d2) as [m|err]; simpl.
    + specialize (IH l2).
      destruct (merge_dims l1 l2) as [ms|err]; simpl.
      * destruct Hd as (Hm1 & Hm2 & Hm). destruct IH as (Hs1 & Hs2 & Hs).
        split; [constructor; auto|]. split; [constructor; auto|].
        intros t H1 H2. inversion H1; subst. inversion H2; subst.
        constructor; auto.
      * destruct IH as [-> IH]. split; [auto|].
        intros (t & H1 & H2). inversion H1; subst. inversion H2; subst. eauto.
    + destruct Hd as [-> Hd]. split; [auto|].
      intros (t & H1 & H2). inversion H1; subst. inversion H2; subst. eauto.
Qed.

(* ------------------------------------------------------------------ *)
(** ** Claims on shapes *)

(** C2: broadcasting aligns the dimensions from the last axis backward;
    two aligned dimensions are compatible exactly when equal, when one is
    unknown, or when one is 1 (which stretches to the other); otherwise
    the result is a [ShapeMismatch]; an unknown rank gives an unknown rank;
    and [broadcast s1 s2 = broadcast s2 s1] for all shapes. *)
Theorem broadcast_contract :
  (forall s1 s2, broadcast s1 s2 = broadcast s2 s1) /\
  (forall s, broadcast UnknownRank s = Ok UnknownRank /\
             broadcast s UnknownRank = Ok UnknownRank) /\
  (forall s1 s2 e, broadcast s1 s2 = Err e -> e = ShapeMismatch) /\
  (forall d, broadcast_dim (Some 1) d = Ok d /\ broadcast_dim d (Some 1) = Ok d) /\
  (forall l1 l2,
     (exists r, broadcast (Known l1) (Known l2) = Ok (Known r)) <->
     (forall i d1 d2, rev l1 !! i = Some d1 -> rev l2 !! i = Some d2 ->
                      dim_compat d1 d2)) /\
  (forall l1 l2 r, broadcast (Known l1) (Known l2) = Ok (Known r) ->
     forall i,
       (rev l1 !! i = None -> rev r !! i = rev l2 !! i) /\
       (rev l2 !! i = None -> rev r !! i = rev l1 !! i) /\
       (forall d1 d2, rev l1 !! i = Some d1 -> rev l2 !! i = Some d2 ->
          exists d, broadcast_dim d1 d2 = Ok d /\ rev r !! i = Some d)).
Proof.
  split; [|split; [|split; [|split; [|split]]]].
  - intros [|l1] [|l2]; try reflexivity.
    rewrite !broadcast_known, broadcast_rev_comm. reflexivity.
  - intros [|l]; split; reflexivity.
  - intros [|l1] [|l2] e; try discriminate.
    rewrite broadcast_known.
    destruct (broadcast_rev (rev l1) (rev l2)) eqn:H; simpl; [discriminate|].
    intros [= <-]. eauto using broadcast_rev_err.
  - apply broadcast_dim_one.
  - intros l1 l2. rewrite <- broadcast_rev_ok. split.
    + intros [r Hr]. apply broadcast_known_ok in Hr. eauto.
    + intros [r Hr]. exists (rev r). apply broadcast_known_ok.
      rewrite rev_involutive. exact Hr.
  - intros l1 l2 r Hr. apply broadcast_known_ok in Hr.
    apply broadcast_rev_lookup. exact Hr.
Qed.

(** C3: [merge] gives the most specific shape consistent with both inputs
    (a refinement of both that every common refinement refines), and fails
    with [ShapeMismatch] exactly when no shape refines both; it is
    idempotent, a fully unknown shape is its identity,
    [[3, ?]] and [[?, 4]] merge to [[3, 4]], and [[3, 5]] with [[3, 6]]
    fails with [ShapeMismatch]. *)
Theorem merge_contract :
  (forall s1 s2 m, merge s1 s2 = Ok m ->
     refines m s1 /\ refines m s2 /\
     forall t, refines t s1 -> refines t s2 -> refines t m) /\
  (forall s1 s2 e, merge s1 s2 = Err e ->
     e = ShapeMismatch /\ ~ exists t, refines t s1 /\ refines t s2) /\
  (forall s, merge s s = Ok s) /\
  (forall s, merge UnknownRank s = Ok s /\ merge s UnknownRank = Ok s) /\
  merge (Known [Some 3; None]) (Known [None; Some 4]) = Ok (Known [Some 3; Some 4]) /\
  merge (Known [Some 3; Some 5]) (Known [Some 3; Some 6]) = Err ShapeMismatch.
Proof.
  split; [|split; [|split; [|split; [|split]]]].
  - intros [|l1] [|l2] m; simpl.
    + intros [= <-]. split; [exact I|]. split; [exact I|]. intros t _ _. apply refines_unknown.
    + intros [= <-]. split; [exact I|]. split; [apply refines_refl|]. intros t _ H. exact H.
    + intros [= <-]. split; [apply refines_refl|]. split; [exact I|]. intros t H _. exact H.
    + pose proof (merge_dims_spec l1 l2) as H.
      destruct (merge_dims l1 l2) as [ms|err]; simpl; [|discriminate].
      intros [= <-]. destruct H as (H1 & H2 & H).
      split; [exact H1|]. split; [exact H2|].
      intros [|lt]; simpl; [contradiction|]. apply H.
  - intros [|l1] [|l2] e; simpl; try discriminate.
    pose proof (merge_dims_spec l1 l2) as H.
    destruct (merge_dims l1 l2) as [ms|err]; simpl; [discriminate|].
    intros [= <-]. destruct H as [-> H]. split; [reflexivity|].
    intros ([|lt] & H1 & H2); simpl in *; [contradiction|]. eauto.
  - intros [|l]; simpl; [reflexivity|]. rewrite merge_dims_refl. reflexivity.
  - intros [|l]; split; reflexivity.
  - reflexivity.
  - reflexivity.
Qed.

(* ------------------------------------------------------------------ *)
(** ** Registering operations and handles *)

Lemma add_op_ok w name ty ins outs g id w1 :
  add_op w name ty ins outs g = Ok (id, w1) ->
  id = length (w_ops w) /\
  (exists n, w_ops w1 = w_ops w ++ [mkOperation n ty ins outs g]) /\
  w_handles w1 = w_handles w.
Proof.
  unfold add_op.
  destruct name as [n|]; [destruct (name_taken w g n)|]; simpl;
    try discriminate; intros [= <- <-]; simpl; eauto.
Qed.

Lemma init_ops w op i dtype t w' :
  init w op i dtype = Ok (t, w') -> w_ops w' = w_ops w.
Proof.
  unfold init.
  destruct (w_ops w !! op) as [o|]; [|discriminate].
  destruct (o_outputs o !! i) as [[dt sh]|]; [|discriminate].
  destruct (dtype_eqb dtype dt); simpl; [|discriminate].
  destruct (w_handles w !! (op, i)); intros [= <- <-]; reflexivity.
Qed.

Lemma dtype_eqb_spec a b : dtype_eqb a b = true <-> a = b.
Proof. unfold dtype_eqb. apply bool_decide_eq_true. Qed.

Lemma add_op_init w name ty ins dt sh g id w1 :
  wf w ->
  add_op w name ty ins [(dt, sh)] g = Ok (id, w1) ->
  init w1 id 0 dt =
  Ok (mkTensor id 0 dt sh g,
      mkWorld (w_ops w1) (<[(id, 0) := mkTensor id 0 dt sh g]> (w_handles w1))).
Proof.
  intros Hwf Hadd. destruct (add_op_ok _ _ _ _ _ _ _ _ Hadd) as (-> & [n Hops] & Hh).
  unfold init. rewrite Hops, lookup_app_r, Nat.sub_diag by lia. simpl.
  rewrite (proj2 (dtype_eqb_spec dt dt) eq_refl). simpl.
  rewrite Hh.
  destruct (w_handles w !! (length (w_ops w), 0)) as [t|] eqn:Ht.
  - apply Hwf in Ht. simpl in Ht. lia.
  - reflexivity.
Qed.

Lemma binop_call_ok o x y name w t w' :
  binop_call o x y name w = Ok (t, w') ->
  exists op dt sh,
    binop_dtype o (t_dtype x) (t_dtype y) = Ok dt /\
    broadcast (t_shape x) (t_shape y) = Ok sh /\
    t_graph y = t_graph x /\
    w_ops w' = w_ops w ++ [op] /\
    o_type op = TBin o /\ o_inputs op = [x; y] /\
    o_outputs op = [(dt, sh)] /\ o_graph op = t_graph x.
Proof.
  unfold binop_call.
  destruct (binop_dtype o (t_dtype x) (t_dtype y)) as [dt|]; simpl; [|discriminate].
  destruct (broadcast (t_shape x) (t_shape y)) as [sh|]; simpl; [|discriminate].
  destruct (Nat.eqb_spec (t_graph y) (t_graph x)) as [Hg|]; simpl; [|discriminate].
  destruct (add_op w name (TBin o) [x; y] [(dt, sh)] (t_graph x)) as [[id w1]|] eqn:Hadd;
    simpl; [|discriminate].
  intros Hinit. apply init_ops in Hinit.
  destruct (add_op_ok _ _ _ _ _ _ _ _ Hadd) as (_ & [n Hops] & _).
  eexists (mkOperation n (TBin o) [x; y] [(dt, sh)] (t_graph x)), dt, sh.
  rewrite Hinit, Hops. repeat split; auto.
Qed.

Lemma unop_call_ok u x name w t w' :
  wf w ->
  unop_call u x name w = Ok (t, w') ->
  unop_dtype u (t_dtype x) = Ok (t_dtype t) /\ t_shape t = t_shape x.
Proof.
  intros Hwf. unfold unop_call.
  destruct (unop_dtype u (t_dtype x)) as [dt|]; simpl; [|discriminate].
  destruct (add_op w name (TUn u) [x] [(dt, t_shape x)] (t_graph x)) as [[id w1]|] eqn:Hadd;
    simpl; [|discriminate].
  rewrite (add_op_init _ _ _ _ _ _ _ _ _ Hwf Hadd). intros [= <- _]. auto.
Qed.

(* ------------------------------------------------------------------ *)
(** ** Claims on the operator algebra *)

(** C1: a reflected operator called with its operands in the canonical
    order [(x, y)] gives exactly the result (handle and graph) of its
    forward operator; on success the one new operation carries the forward
    operator's type tag, the inputs [[x; y]] and the output dtype and shape
    of the forward rules. *)
Theorem reflected_same_graph (r : RBinOp) (x y : Tensor) (name : option string) (w : World) :
  rbinop_call r x y name w = binop_call (rbinop_forward r) x y name w /\
  (forall t w', rbinop_call r x y name w = Ok (t, w') ->
     exists op dt sh,
       w_ops w' = w_ops w ++ [op] /\
       o_type op = TBin (rbinop_forward r) /\ o_inputs op = [x; y] /\
       binop_dtype (rbinop_forward r) (t_dtype x) (t_dtype y) = Ok dt /\
       broadcast (t_shape x) (t_shape y) = Ok sh /\
       o_outputs op = [(dt, sh)]).
Proof.
  split; [reflexivity|].
  intros t w' H. unfold rbinop_call in H.
  destruct (binop_call_ok _ _ _ _ _ _ _ H)
    as (op & dt & sh & Hdt & Hsh & _ & Hops & Hty & Hin & Hout & _).
  exists op, dt, sh. auto 7.
Qed.

Lemma binop_dtype_err o a b e : binop_dtype o a b = Err e -> e = TypeError.
Proof.
  assert (Hs : forall ts, same_type_in ts a b = Err e -> e = TypeError).
  { intros ts. unfold same_type_in. destruct (_ && _); congruence. }
  destruct o; simpl; try apply Hs.
  - destruct (in_types a pow_types && in_types b pow_types); congruence.
  - destruct (same_type_in cmp_types a b) eqn:E; simpl; [discriminate|].
    intros [= <-]. apply Hs in E. exact E.
  - destruct (same_type_in cmp_types a b) eqn:E; simpl; [discriminate|].
    intros [= <-]. apply Hs in E. exact E.
  - destruct (same_type_in cmp_types a b) eqn:E; simpl; [discriminate|].
    intros [= <-]. apply Hs in E. exact E.
  - destruct (same_type_in cmp_types a b) eqn:E; simpl; [discriminate|].
    intros [= <-]. apply Hs in E. exact E.
Qed.

Lemma broadcast_err s1 s2 e : broadcast s1 s2 = Err e -> e = ShapeMismatch.
Proof.
  destruct s1, s2; simpl; try discriminate.
  destruct (broadcast_rev _ _) eqn:Hr; simpl; [discriminate|].
  intros [= <-]. eauto using broadcast_rev_err.
Qed.

(** C5 (as amended): when [x] and [y] live in different graphs, no binary
    operator call succeeds, so no operation ever combines them and none is
    registered; the error is [GraphMismatch] whenever the dtype check and
    the broadcast (the earlier steps) pass, while a failing dtype check is
    reported first as [TypeError] and, after a passing dtype check, a
    failing broadcast as [ShapeMismatch].  No [matMul] call combining them
    succeeds either. *)
Theorem binop_graph_mismatch (x y : Tensor) (H : t_graph y <> t_graph x) :
  (forall o name w r, binop_call o x y name w <> Ok r) /\
  (forall r name w res, rbinop_call r x y name w <> Ok res) /\
  (forall o name w,
     (exists dt, binop_dtype o (t_dtype x) (t_dtype y) = Ok dt) ->
     (exists sh, broadcast (t_shape x) (t_shape y) = Ok sh) ->
     binop_call o x y name w = Err GraphMismatch) /\
  (forall o name w,
     (forall dt, binop_dtype o (t_dtype x) (t_dtype y) <> Ok dt) ->
     binop_call o x y name w = Err TypeError) /\
  (forall o name w,
     (exists dt, binop_dtype o (t_dtype x) (t_dtype y) = Ok dt) ->
     (forall sh, broadcast (t_shape x) (t_shape y) <> Ok sh) ->
     binop_call o x y name w = Err ShapeMismatch) /\
  (forall ta tb aa ab asp bsp name w r,
     matMul x y ta tb aa ab asp bsp name w <> Ok r).
Proof.
  split; [|split; [|split; [|split; [|split]]]].
  - intros o name w [t w'] Hc.
    destruct (binop_call_ok _ _ _ _ _ _ _ Hc) as (? & ? & ? & _ & _ & Hg & _). auto.
  - intros r name w [t w'] Hc.
    destruct (binop_call_ok _ _ _ _ _ _ _ Hc) as (? & ? & ? & _ & _ & Hg & _). auto.
  - intros o name w [dt Hdt] [sh Hsh]. unfold binop_call.
    rewrite Hdt, Hsh. simpl.
    destruct (Nat.eqb_spec (t_graph y) (t_graph x)); [contradiction|]. reflexivity.
  - intros o name w Hdt. unfold binop_call.
    destruct (binop_dtype o _ _) as [dt|e] eqn:Ed; [exfalso; exact (Hdt dt eq_refl)|].
    apply binop_dtype_err in Ed. subst. reflexivity.
  - intros o name w [dt Hdt] Hsh. unfold binop_call. rewrite Hdt. cbn [bind].
    destruct (broadcast _ _) as [sh|e] eqn:Eb; [exfalso; exact (Hsh sh eq_refl)|].
    apply broadcast_err in Eb. subst. reflexivity.
  - intros ta tb aa ab asp bsp name w r. unfold matMul.
    destruct (guard _ InvalidArgument); simpl; [|discriminate].
    destruct (matmul_shape _ _ _ _); simpl; [|discriminate].
    destruct (same_type_in _ _ _); simpl; [|discriminate].
    destruct (Nat.eqb_spec (t_graph y) (t_graph x)); [contradiction|]. discriminate.
Qed.

(** C6: for an operation [o] of the graph, [init o valueIndex dtype] fails
    with [InvalidIndex] exactly when [o] has no output [valueIndex], with
    [DTypeMismatch] exactly when that output's dtype differs from [dtype];
    on success the handle is registered as the one handle of the slot
    (other slots untouched, a second [init] of the slot returns the same
    handle and changes nothing), and a fresh handle names [o], the slot, the
    dtype, the declared shape and [o]'s graph. *)
Theorem init_contract (w : World) (op valueIndex : nat) (dtype : DType) (o : Operation)
    (Hop : w_ops w !! op = Some o) :
  (init w op valueIndex dtype = Err InvalidIndex <-> o_outputs o !! valueIndex = None) /\
  (init w op valueIndex dtype = Err DTypeMismatch <->
     exists dt sh, o_outputs o !! valueIndex = Some (dt, sh) /\ dtype <> dt) /\
  (forall t w', init w op valueIndex dtype = Ok (t, w') ->
     w_ops w' = w_ops w /\
     w_handles w' !! (op, valueIndex) = Some t /\
     (forall k, k <> (op, valueIndex) -> w_handles w' !! k = w_handles w !! k) /\
     init w' op valueIndex dtype = Ok (t, w') /\
     exists sh, o_outputs o !! valueIndex = Some (dtype, sh) /\
       (w_handles w !! (op, valueIndex) = None ->
        t = mkTensor op valueIndex dtype sh (o_graph o))).
Proof.
  unfold init. rewrite Hop.
  destruct (o_outputs o !! valueIndex) as [[dt sh]|] eqn:Hout.
  - destruct (dtype_eqb dtype dt) eqn:Heq; simpl.
    + apply dtype_eqb_spec in Heq. subst dt.
      destruct (w_handles w !! (op, valueIndex)) as [t0|] eqn:Hh.
      * split; [split; [discriminate|discriminate]|].
        split; [split; [discriminate|intros (? & ? & [= <- <-] & ?); contradiction]|].
        intros t w' [= <- <-].
        rewrite Hop, Hout, (proj2 (dtype_eqb_spec dtype dtype) eq_refl). simpl.
        rewrite Hh. repeat split; auto. exists sh. split; [reflexivity|discriminate].
      * split; [split; [discriminate|discriminate]|].
        split; [split; [discriminate|intros (? & ? & [= <- <-] & ?); contradiction]|].
        intros t w' [= <- <-]. simpl.
        rewrite Hop, Hout, (proj2 (dtype_eqb_spec dtype dtype) eq_refl). simpl.
        rewrite lookup_insert_eq.
        split; [reflexivity|]. split; [reflexivity|].
        split; [intros k Hk; apply lookup_insert_ne; congruence|].
        split; [reflexivity|]. eauto.
    + split; [split; [discriminate|discriminate]|].
      split; [|intros t w' [=]].
      split; [intros _|reflexivity].
      exists dt, sh. split; [reflexivity|].
      intros ->. rewrite (proj2 (dtype_eqb_spec dt dt) eq_refl) in Heq. discriminate.
  - split; [split; reflexivity|].
    split; [split; [discriminate|intros (? & ? & [=] & _)]|].
    intros t w' [=].
Qed.

(** C7 (as amended): [abs], [neg] and [invert] keep the shape of their
    input ([abs] also keeps the Tensor / SparseTensor variant); [neg] keeps
    the dtype; [invert] accepts only bool and returns bool; [abs] keeps the
    dtype except that complex64 gives float32 and complex128 gives
    float64. *)
Theorem unary_shape_dtype (w : World) (Hwf : wf w) :
  (forall x name x' w', abs x name w = Ok (x', w') ->
     tl_shape x' = tl_shape x /\
     tl_dtype x' = abs_result_dtype (tl_dtype x) /\
     match x, x' with
     | Dense _, Dense _ => True
     | Sparse s, Sparse s' => sp_indices s' = sp_indices s
     | _, _ => False
     end) /\
  (forall x name t w', neg x name w = Ok (t, w') ->
     t_shape t = t_shape x /\ t_dtype t = t_dtype x) /\
  (forall x name t w', invert x name w = Ok (t, w') ->
     t_shape t = t_shape x /\ t_dtype x = bool_ /\ t_dtype t = bool_) /\
  (forall x name, t_dtype x <> bool_ -> invert x name w = Err TypeError).
Proof.
  split; [|split; [|split]].
  - intros [t|s] name x' w'; simpl.
    + destruct (unop_call Abs t name w) as [[t' w1]|] eqn:Hc; simpl; [|discriminate].
      intros [= <- <-]. destruct (unop_call_ok _ _ _ _ _ _ Hwf Hc) as [Hdt Hsh].
      simpl in Hdt. destruct (in_types (t_dtype t) abs_types); [|discriminate].
      injection Hdt as Hdt. simpl. auto.
    + destruct (unop_call Abs (sp_values s) name w) as [[v' w1]|] eqn:Hc; simpl; [|discriminate].
      intros [= <- <-]. destruct (unop_call_ok _ _ _ _ _ _ Hwf Hc) as [Hdt Hsh].
      simpl in Hdt. destruct (in_types (t_dtype (sp_values s)) abs_types); [|discriminate].
      injection Hdt as Hdt. simpl. auto.
  - intros x name t w' Hc. destruct (unop_call_ok _ _ _ _ _ _ Hwf Hc) as [Hdt Hsh].
    simpl in Hdt. destruct (in_types (t_dtype x) neg_types); [|discriminate].
    injection Hdt as Hdt. auto.
  - intros x name t w' Hc. destruct (unop_call_ok _ _ _ _ _ _ Hwf Hc) as [Hdt Hsh].
    simpl in Hdt. destruct (dtype_eqb (t_dtype x) bool_) eqn:Hb; [|discriminate].
    apply dtype_eqb_spec in Hb. injection Hdt as Hdt. auto.
  - intros x name Hx. unfold invert, unop_call. simpl.
    destruct (dtype_eqb (t_dtype x) bool_) eqn:Hb; [|reflexivity].
    apply dtype_eqb_spec in Hb. contradiction.
Qed.

(* ------------------------------------------------------------------ *)
(** ** matMul *)

Lemma last_two_known (bx : list nat) (x1 x2 : nat) :
  last_two (map Some (bx ++ [x1; x2])) = Some (map Some bx, Some x1, Some x2).
Proof.
  unfold last_two. rewrite map_app, rev_app_distr. simpl.
  rewrite rev_involutive. reflexivity.
Qed.

Lemma matmul_shape_known (tA tB : bool) (bx bys : list nat) (x1 x2 y1 y2 : nat) :
  matmul_shape tA tB (known (bx ++ [x1; x2])) (known (bys ++ [y1; y2])) =
  if Nat.eqb (if tA then x1 else x2) (if tB then y2 else y1) then
    let* b := broadcast (known bx) (known bys) in
    match b with
    | Known bs => Ok (Known (bs ++ [Some (if tA then x2 else x1);
                                    Some (if tB then y1 else y2)]))
    | UnknownRank => Ok UnknownRank
    end
  else Err ShapeMismatch.
Proof.
  unfold matmul_shape, known, rank_at_least_2.
  rewrite !length_map, !length_app. simpl length.
  rewrite (Nat.add_comm (length bx) 2), (Nat.add_comm (length bys) 2).
  simpl. rewrite !last_two_known.
  destruct tA, tB; simpl; destruct (Nat.eqb _ _); reflexivity.
Qed.

Lemma matMul_flags_ok x y ta tb aa ab asp bsp name w :
  negb (ta && aa) && negb (tb && ab) = true ->
  matMul x y ta tb aa ab asp bsp name w =
  let* sh := matmul_shape (ta || aa) (tb || ab) (t_shape x) (t_shape y) in
  let* dt := same_type_in matmul_types (t_dtype x) (t_dtype y) in
  let* _ := guard (Nat.eqb (t_graph y) (t_graph x)) GraphMismatch in
  let* r := add_op w name (if asp || bsp then TSparseMatMul else TMatMul)
              [x; y] [(dt, sh)] (t_graph x) in
  let '(id, w1) := r in
  init w1 id 0 dt.
Proof. intros H. unfold matMul. rewrite H. reflexivity. Qed.

Lemma matMul_result x y ta tb aa ab asp bsp name w t w' :
  wf w -> matMul x y ta tb aa ab asp bsp name w = Ok (t, w') ->
  same_type_in matmul_types (t_dtype x) (t_dtype y) = Ok (t_dtype t) /\
  matmul_shape (ta || aa) (tb || ab) (t_shape x) (t_shape y) = Ok (t_shape t).
Proof.
  intros Hwf H. unfold matMul in H. peel H.
  destruct a3 as [id w1]. rewrite (add_op_init _ _ _ _ _ _ _ _ _ Hwf E3) in H.
  injection H as <- _. simpl. auto.
Qed.

Lemma last_two_app (bx : list dim) (x1 x2 : dim) :
  last_two (bx ++ [x1; x2]) = Some (bx, x1, x2).
Proof.
  unfold last_two. rewrite rev_app_distr. simpl. rewrite rev_involutive. reflexivity.
Qed.

Lemma matmul_shape_partial (tA tB : bool) (bx bys : list dim) (x1 x2 y1 y2 : dim) :
  matmul_shape tA tB (Known (bx ++ [x1; x2])) (Known (bys ++ [y1; y2])) =
  let* _ := merge_dim (if tA then x1 else x2) (if tB then y2 else y1) in
  let* b := broadcast (Known bx) (Known bys) in
  match b with
  | Known bs => Ok (Known (bs ++ [if tA then x2 else x1; if tB then y1 else y2]))
  | UnknownRank => Ok UnknownRank
  end.
Proof.
  unfold matmul_shape, rank_at_least_2.
  rewrite !length_app. simpl length.
  rewrite (Nat.add_comm (length bx) 2), (Nat.add_comm (length bys) 2).
  cbn [Nat.leb andb guard bind]. rewrite !last_two_app.
  destruct tA, tB; reflexivity.
Qed.

Lemma merge_dim_ok_iff d1 d2 :
  (exists d, merge_dim d1 d2 = Ok d) <-> (forall a b, d1 = Some a -> d2 = Some b -> a = b).
Proof.
  destruct d1 as [a|], d2 as [b|]; simpl; split; eauto; try congruence.
  - destruct (Nat.eqb_spec a b); [intros _ ? ? [= <-] [= <-]; auto|].
    intros [? [=]].
  - intros H. rewrite (proj2 (Nat.eqb_eq a b)) by (apply H; reflexivity). eauto.
Qed.

Lemma merge_dim_err d1 d2 e : merge_dim d1 d2 = Err e -> e = ShapeMismatch.
Proof.
  destruct d1 as [a|], d2 as [b|]; simpl; try discriminate.
  destruct (Nat.eqb a b); congruence.
Qed.

Lemma broadcast_known_shape l1 l2 s :
  broadcast (Known l1) (Known l2) = Ok s -> exists bs, s = Known bs.
Proof.
  rewrite broadcast_known.
  destruct (broadcast_rev (rev l1) (rev l2)); simpl; [|discriminate].
  intros [= <-]. eauto.
Qed.

(** C4: with valid flags, [matMul] (and [rMatMul], which delegates to it)
    fails with [RankError] when an input has rank < 2.  For inputs of known
    rank >= 2, shapes [bx ++ [x1; x2]] and [bys ++ [y1; y2]] (each dimension
    known or unknown), with the inner dimensions taken after
    transpose/adjoint: the call fails with [ShapeMismatch] when the two
    inner dimensions are known and differ or the batch dimensions do not
    broadcast; every successful call has known-equal (or unknown) inner
    dimensions and returns a Tensor of shape [batch ++ [rowsOfX; colsOfY]],
    [batch] the broadcast of the batch dimensions; and when those
    conditions hold (for supported equal dtypes in one graph) the call
    succeeds.  E.g. [[2,3,4]] and [[2,4,5]] give [[2,3,5]] while [[2,3,4]]
    and [[3,4,5]] fail. *)
Theorem matMul_shape_contract (x y : Tensor)
    (transposeA transposeB adjointA adjointB aIsSparse bIsSparse : bool)
    (Hflags : negb (transposeA && adjointA) && negb (transposeB && adjointB) = true) :
  (forall name w, rMatMul x y transposeA transposeB adjointA adjointB aIsSparse bIsSparse name w
                  = matMul x y transposeA transposeB adjointA adjointB aIsSparse bIsSparse name w) /\
  (forall l name w, (t_shape x = Known l \/ t_shape y = Known l) -> length l < 2 ->
     matMul x y transposeA transposeB adjointA adjointB aIsSparse bIsSparse name w
     = Err RankError) /\
  (forall (bx bys : list dim) (x1 x2 y1 y2 : dim),
     t_shape x = Known (bx ++ [x1; x2]) -> t_shape y = Known (bys ++ [y1; y2]) ->
     let tA := transposeA || adjointA in
     let tB := transposeB || adjointB in
     let rowsX := if tA then x2 else x1 in
     let innerX := if tA then x1 else x2 in
     let innerY := if tB then y2 else y1 in
     let colsY := if tB then y1 else y2 in
     (((exists a b, innerX = Some a /\ innerY = Some b /\ a <> b) \/
       broadcast (Known bx) (Known bys) = Err ShapeMismatch) ->
      forall name w,
        matMul x y transposeA transposeB adjointA adjointB aIsSparse bIsSparse name w
        = Err ShapeMismatch) /\
     (forall name w t w', wf w ->
      matMul x y transposeA transposeB adjointA adjointB aIsSparse bIsSparse name w
      = Ok (t, w') ->
      (forall a b, innerX = Some a -> innerY = Some b -> a = b) /\
      exists bs, broadcast (Known bx) (Known bys) = Ok (Known bs) /\
                 t_shape t = Known (bs ++ [rowsX; colsY])) /\
     (forall bs, (forall a b, innerX = Some a -> innerY = Some b -> a = b) ->
      broadcast (Known bx) (Known bys) = Ok (Known bs) ->
      same_type_in matmul_types (t_dtype x) (t_dtype y) = Ok (t_dtype x) ->
      t_graph y = t_graph x ->
      forall w, wf w ->
      exists t w',
        matMul x y transposeA transposeB adjointA adjointB aIsSparse bIsSparse None w
        = Ok (t, w') /\
        t_shape t = Known (bs ++ [rowsX; colsY]))) /\
  matmul_shape false false (known [2; 3; 4]) (known [2; 4; 5]) = Ok (known [2; 3; 5]) /\
  matmul_shape false false (known [2; 3; 4]) (known [3; 4; 5]) = Err ShapeMismatch.
Proof.
  split; [reflexivity|]. split; [|split; [|split; reflexivity]].
  - intros l name w Hl Hlen. rewrite matMul_flags_ok by exact Hflags.
    unfold matmul_shape.
    assert (Hr : rank_at_least_2 (t_shape x) && rank_at_least_2 (t_shape y) = false).
    { destruct Hl as [-> | ->]; destruct l as [|? [|? l]]; simpl in *;
        try lia; auto using andb_false_r. }
    rewrite Hr. reflexivity.
  - intros bx bys x1 x2 y1 y2 Hx Hy tA tB rowsX innerX innerY colsY.
    pose proof (matmul_shape_partial tA tB bx bys x1 x2 y1 y2) as Hms.
    split; [|split].
    + intros Hfail name w. rewrite matMul_flags_ok by exact Hflags.
      rewrite Hx, Hy. fold tA tB. rewrite Hms.
      destruct Hfail as [(a & b & Ha & Hb & Hne) | Hbf].
      * assert (Hm : merge_dim innerX innerY = Err ShapeMismatch).
        { unfold innerX, innerY in *. rewrite Ha, Hb. simpl.
          rewrite (proj2 (Nat.eqb_neq a b) Hne). reflexivity. }
        unfold innerX, innerY in Hm. rewrite Hm. reflexivity.
      * destruct (merge_dim _ _) eqn:Em; cbn [bind]; [rewrite Hbf; reflexivity|].
        apply merge_dim_err in Em. subst. reflexivity.
    + intros name w t w' Hwf Hc.
      destruct (matMul_result _ _ _ _ _ _ _ _ _ _ _ _ Hwf Hc) as [_ Hsh].
      rewrite Hx, Hy in Hsh. fold tA tB in Hsh. rewrite Hms in Hsh. peel Hsh.
      split.
      * apply merge_dim_ok_iff. eauto.
      * destruct (broadcast_known_shape _ _ _ E0) as [bs ->].
        injection Hsh as <-. eauto.
    + intros bs Heq Hbs Hdt Hg w Hwf.
      destruct (proj2 (merge_dim_ok_iff innerX innerY) Heq) as [d Hd].
      rewrite matMul_flags_ok by exact Hflags.
      rewrite Hx, Hy. fold tA tB. rewrite Hms.
      unfold innerX, innerY in Hd. rewrite Hd. cbn [bind]. rewrite Hbs.
      cbn -[add_op init]. rewrite Hdt. cbn -[add_op init].
      rewrite (proj2 (Nat.eqb_eq (t_graph y) (t_graph x)) Hg). cbv [guard bind].
      match goal with
      | |- context [add_op ?w0 ?n0 ?ty0 ?i0 [(?d0, ?s0)] ?g0] =>
          destruct (add_op w0 n0 ty0 i0 [(d0, s0)] g0) as [[id w1]|] eqn:Hadd
      end; [|discriminate].
      rewrite (add_op_init _ _ _ _ _ _ _ _ _ Hwf Hadd).
      eexists _, _. split; [reflexivity|]. reflexivity.
Qed.

(** C9: asking for transpose and adjoint of the same operand makes
    [matMul] and [rMatMul] fail with [InvalidArgument]. *)
Theorem matMul_transpose_adjoint (x y : Tensor)
    (transposeA transposeB adjointA adjointB aIsSparse bIsSparse : bool)
    (name : option string) (w : World)
    (H : (transposeA && adjointA) || (transposeB && adjointB) = true) :
  matMul x y transposeA transposeB adjointA adjointB aIsSparse bIsSparse name w
  = Err InvalidArgument /\
  rMatMul x y transposeA transposeB adjointA adjointB aIsSparse bIsSparse name w
  = Err InvalidArgument.
Proof.
  unfold rMatMul, matMul.
  destruct (transposeA && adjointA), (transposeB && adjointB); try discriminate;
    split; reflexivity.
Qed.

(* ------------------------------------------------------------------ *)
(** ** Handle equality and the evaluation signature *)

(** C8: [eq] is a boolean test on handles, with no graph state involved:
    it holds exactly when both name the same operation, the same output
    slot and the same graph; handles of different operations are never
    equal, whatever their dtypes and shapes. *)
Theorem eq_handle_identity (this other : Tensor) :
  (TensorHandle.eq this other = true <->
   t_op this = t_op other /\ t_valueIndex this = t_valueIndex other /\
   t_graph this = t_graph other) /\
  (t_op this <> t_op other -> TensorHandle.eq this other = false).
Proof.
  unfold TensorHandle.eq. split.
  - rewrite !andb_true_iff, !Nat.eqb_eq. tauto.
  - intros H. apply Nat.eqb_neq in H. rewrite H. reflexivity.
Qed.

(** C10: in every implementation of the interface, [eval] takes the feed
    dictionary as an array of Tensors and returns an array of Tensors. *)
Theorem eval_signature (Session : Type) (I : TensorInterface Session) :
  exists f : Tensor -> list Tensor -> option Session -> list Tensor, ti_eval I = f.
Proof. exists (ti_eval I). reflexivity. Qed.

(* ------------------------------------------------------------------ *)
(** ** Instances at concrete graphs *)

Lemma binop_graph_mismatch_witness :
  t_graph y_i32_g1 <> t_graph x_i32_g0 /\
  add x_i32_g0 y_i32_g1 None two_graphs = Err GraphMismatch /\
  t_graph y_bool_g1 <> t_graph x_i32_g0 /\
  add x_i32_g0 y_bool_g1 None two_graphs = Err TypeError /\
  t_graph y_i32_g1_wide <> t_graph x_i32_g0 /\
  add x_i32_g0 y_i32_g1_wide None two_graphs_wide = Err ShapeMismatch.
Proof.
  assert (H : t_graph y_i32_g1 <> t_graph x_i32_g0) by (simpl; lia).
  assert (Hb : t_graph y_bool_g1 <> t_graph x_i32_g0) by (simpl; lia).
  assert (Hw : t_graph y_i32_g1_wide <> t_graph x_i32_g0) by (simpl; lia).
  split; [exact H|]. split.
  { destruct (binop_graph_mismatch x_i32_g0 y_i32_g1 H) as (_ & _ & Hgm & _).
    apply Hgm; [exists int32; reflexivity | exists (known [2]); reflexivity]. }
  split; [exact Hb|]. split.
  { destruct (binop_graph_mismatch x_i32_g0 y_bool_g1 Hb) as (_ & _ & _ & Hte & _).
    apply Hte. intros dt. vm_compute. discriminate. }
  split; [exact Hw|].
  destruct (binop_graph_mismatch x_i32_g0 y_i32_g1_wide Hw) as (_ & _ & _ & _ & Hsm & _).
  apply Hsm; [exists int32; reflexivity | intros sh; vm_compute; discriminate].
Defined.

(** With operands of two graphs and of different dtypes, [add] reports the
    dtype check, which comes first, and not [GraphMismatch]. *)
Lemma add_two_graphs_type_error :
  t_graph y_bool_g1 <> t_graph x_i32_g0 /\
  add x_i32_g0 y_bool_g1 None two_graphs = Err TypeError /\
  add x_i32_g0 y_bool_g1 None two_graphs <> Err GraphMismatch.
Proof.
  split; [simpl; lia|]. split; [vm_compute; reflexivity|]. vm_compute. discriminate.
Qed.

Lemma init_contract_witness :
  w_ops graph0 !! 0 = Some (mkOperation "Placeholder" TPlaceholder []
                             [(float32, known [2; 3]); (float32, known [3])] 0) /\
  (init graph0 0 2 float32 = Err InvalidIndex).
Proof.
  split; [reflexivity|].
  apply (init_contract graph0 0 2 float32 _ eq_refl). reflexivity.
Defined.

Lemma unary_shape_dtype_witness :
  wf graph0 /\
  (forall t w', neg x_f32 None graph0 = Ok (t, w') ->
     t_shape t = known [2; 3] /\ t_dtype t = float32).
Proof.
  assert (Hwf : wf graph0) by apply map_Forall_empty.
  split; [exact Hwf|].
  destruct (unary_shape_dtype graph0 Hwf) as (_ & Hneg & _).
  exact (Hneg x_f32 None).
Defined.

(** [abs] of a complex64 Tensor is a float32 Tensor. *)
Lemma abs_complex64_is_float32 :
  match abs (Dense x_c64) None graph_c64 with
  | Ok (x', _) => tl_dtype x' = float32 /\ tl_dtype x' <> tl_dtype (Dense x_c64)
  | Err _ => False
  end.
Proof. vm_compute. split; [reflexivity|discriminate]. Qed.

Lemma matMul_shape_contract_witness :
  negb (false && false) && negb (false && false) = true /\
  matmul_shape false false (known [2; 3; 4]) (known [2; 4; 5]) = Ok (known [2; 3; 5]) /\
  exists t w', matMul x_batch y_batch false false false false false false None graph_batch
               = Ok (t, w') /\ t_shape t = Known [Some 2; Some 3; Some 5].
Proof.
  assert (H : negb (false && false) && negb (false && false) = true) by reflexivity.
  split; [exact H|]. split.
  { exact (proj1 (proj2 (proj2 (proj2
      (matMul_shape_contract x_f32 y_f32 false false false false false false H))))). }
  destruct (matMul_shape_contract x_batch y_batch false false false false false false H)
    as (_ & _ & Hsh & _).
  destruct (Hsh [None] [Some 2] (Some 3) (Some 4) (Some 4) (Some 5) eq_refl eq_refl)
    as (_ & _ & Hex).
  destruct (Hex [Some 2]) with (w := graph_batch) as (t & w' & Hc & Ht).
  - intros a b Ha Hb. simpl in Ha, Hb. congruence.
  - reflexivity.
  - reflexivity.
  - reflexivity.
  - apply map_Forall_empty.
  - exists t, w'. split; [exact Hc | exact Ht].
Defined.

Lemma matMul_transpose_adjoint_witness :
  (true && true) || (false && false) = true /\
  matMul x_f32 y_f32 true false true false false false None graph0 = Err InvalidArgument.
Proof.
  assert (H : (true && true) || (false && false) = true) by reflexivity.
  split; [exact H|].
  exact (proj1 (matMul_transpose_adjoint x_f32 y_f32 true false true false false false
                  None graph0 H)).
Defined.

(* ------------------------------------------------------------------ *)
(** ** Further properties of the operator algebra *)

Lemma consistent_wf w : consistent w -> wf w.
Proof.
  intros Hc. unfold wf. eapply map_Forall_impl; [exact Hc|].
  intros [op i] t (_ & _ & o & Ho & _). simpl in *.
  apply lookup_lt_Some in Ho. exact Ho.
Qed.

Lemma add_op_consistent w name ty ins outs g id w1 :
  consistent w -> add_op w name ty ins outs g = Ok (id, w1) -> consistent w1.
Proof.
  intros Hc Hadd. destruct (add_op_ok _ _ _ _ _ _ _ _ Hadd) as (_ & [n Hops] & Hh).
  unfold consistent. rewrite Hh, Hops.
  eapply map_Forall_impl; [exact Hc|].
  intros k t (H1 & H2 & o & Ho & Hout & Hg).
  split; [exact H1|]. split; [exact H2|].
  exists o. split; [apply lookup_app_l_Some; exact Ho|]. auto.
Qed.

Lemma init_consistent w op i dtype t w' :
  consistent w -> init w op i dtype = Ok (t, w') ->
  consistent w' /\ w_handles w' !! (op, i) = Some t.
Proof.
  intros Hc. unfold init.
  destruct (w_ops w !! op) as [o|] eqn:Ho; [|discriminate].
  destruct (o_outputs o !! i) as [[dt sh]|] eqn:Hout; [|discriminate].
  destruct (dtype_eqb dtype dt) eqn:Heq; simpl; [|discriminate].
  apply dtype_eqb_spec in Heq. subst dt.
  destruct (w_handles w !! (op, i)) as [t0|] eqn:Hh; intros [= <- <-]; [auto|].
  split; [|simpl; apply lookup_insert_eq].
  unfold consistent. simpl. apply map_Forall_insert_2; [|exact Hc].
  simpl. split; [reflexivity|]. split; [reflexivity|]. eauto.
Qed.

(** The handle registered at [(op, i)] is the output [i] of [op]. *)
Lemma consistent_handle w t :
  consistent w -> w_handles w !! (t_op t, t_valueIndex t) = Some t ->
  exists o, w_ops w !! t_op t = Some o /\
            o_outputs o !! t_valueIndex t = Some (t_dtype t, t_shape t) /\
            t_graph t = o_graph o.
Proof.
  intros Hc Ht. apply Hc in Ht. simpl in Ht. destruct Ht as (_ & _ & H). exact H.
Qed.

Lemma binop_call_result o x y name w t w' :
  wf w -> binop_call o x y name w = Ok (t, w') ->
  exists dt sh,
    binop_dtype o (t_dtype x) (t_dtype y) = Ok dt /\
    broadcast (t_shape x) (t_shape y) = Ok sh /\
    t = mkTensor (length (w_ops w)) 0 dt sh (t_graph x).
Proof.
  intros Hwf H. unfold binop_call in H. peel H.
  destruct a2 as [id w1]. rewrite (add_op_init _ _ _ _ _ _ _ _ _ Hwf E2) in H.
  injection H as <- _. destruct (add_op_ok _ _ _ _ _ _ _ _ E2) as (-> & _).
  eauto.
Qed.

Lemma binop_call_succeeds o x y w dt sh :
  wf w ->
  binop_dtype o (t_dtype x) (t_dtype y) = Ok dt ->
  broadcast (t_shape x) (t_shape y) = Ok sh ->
  t_graph y = t_graph x ->
  exists w', binop_call o x y None w = Ok (mkTensor (length (w_ops w)) 0 dt sh (t_graph x), w').
Proof.
  intros Hwf Hdt Hsh Hg. unfold binop_call. rewrite Hdt, Hsh. cbn [bind].
  rewrite (proj2 (Nat.eqb_eq _ _) Hg). cbn [guard bind].
  destruct (add_op w None (TBin o) [x; y] [(dt, sh)] (t_graph x)) as [[id w1]|] eqn:Hadd;
    [|discriminate].
  cbn [bind]. rewrite (add_op_init _ _ _ _ _ _ _ _ _ Hwf Hadd).
  destruct (add_op_ok _ _ _ _ _ _ _ _ Hadd) as (-> & _). eauto.
Qed.

Lemma same_type_in_ok ts a b d :
  same_type_in ts a b = Ok d -> d = a /\ b = a /\ a ∈ ts.
Proof.
  unfold same_type_in, in_types.
  destruct (bool_decide (a ∈ ts)) eqn:Hin, (dtype_eqb a b) eqn:Heq; simpl;
    try discriminate.
  intros [= <-]. apply bool_decide_eq_true in Hin. apply dtype_eqb_spec in Heq. auto.
Qed.

Lemma same_type_in_neq ts a b : b <> a -> same_type_in ts a b = Err TypeError.
Proof.
  intros H. unfold same_type_in.
  destruct (dtype_eqb a b) eqn:Heq; [apply dtype_eqb_spec in Heq; congruence|].
  rewrite andb_false_r. reflexivity.
Qed.

Lemma init_fresh_consistent w1 id dt t w' :
  consistent w1 -> init w1 id 0 dt = Ok (t, w') ->
  consistent w' /\ w_handles w' !! (t_op t, t_valueIndex t) = Some t.
Proof.
  intros Hc Hi. destruct (init_consistent _ _ _ _ _ _ Hc Hi) as [Hc' Hreg].
  split; [exact Hc'|].
  pose proof (Hc' _ _ Hreg) as (Hop & Hidx & _). simpl in Hop, Hidx.
  rewrite Hop, Hidx. exact Hreg.
Qed.

(** Comparisons [ge], [gt], [le], [lt] return a bool Tensor of the
    broadcast shape, from two operands of one of the listed types. *)
Theorem comparison_result_bool (w : World) (Hwf : wf w) :
  forall o x y name t w',
    (o = Ge \/ o = Gt \/ o = Le \/ o = Lt) ->
    binop_call o x y name w = Ok (t, w') ->
    t_dtype t = bool_ /\ t_dtype y = t_dtype x /\ t_dtype x ∈ cmp_types /\
    broadcast (t_shape x) (t_shape y) = Ok (t_shape t).
Proof.
  intros o x y name t w' Ho H.
  destruct (binop_call_result _ _ _ _ _ _ _ Hwf H) as (dt & sh & Hdt & Hsh & ->).
  simpl. split; [|split; [|split; [|exact Hsh]]];
  destruct Ho as [->|[->|[->| ->]]]; simpl in Hdt;
  destruct (same_type_in cmp_types (t_dtype x) (t_dtype y)) as [d|] eqn:E;
  simpl in Hdt; try discriminate; injection Hdt as <-;
  try reflexivity; apply same_type_in_ok in E; tauto.
Qed.

(** [and], [or], [xor] take two bool Tensors and return a bool Tensor;
    any other dtype of [x] is a [TypeError]. *)
Theorem logical_ops_bool (w : World) (Hwf : wf w) :
  forall o x y name,
    (o = And \/ o = Or \/ o = Xor) ->
    (forall t w', binop_call o x y name w = Ok (t, w') ->
       t_dtype x = bool_ /\ t_dtype y = bool_ /\ t_dtype t = bool_) /\
    (t_dtype x <> bool_ -> binop_call o x y name w = Err TypeError).
Proof.
  intros o x y name Ho. split.
  - intros t w' H.
    destruct (binop_call_result _ _ _ _ _ _ _ Hwf H) as (dt & sh & Hdt & _ & ->).
    simpl. assert (Hd : same_type_in [bool_] (t_dtype x) (t_dtype y) = Ok dt)
      by (destruct Ho as [->|[->| ->]]; exact Hdt).
    apply same_type_in_ok in Hd as (-> & Hy & Hin).
    apply list_elem_of_singleton in Hin. rewrite Hy, Hin. auto.
  - intros Hx. unfold binop_call.
    assert (Hd : binop_dtype o (t_dtype x) (t_dtype y) = Err TypeError).
    { assert (Hn : in_types (t_dtype x) [bool_] = false).
      { unfold in_types. apply bool_decide_eq_false.
        rewrite list_elem_of_singleton. exact Hx. }
      destruct Ho as [->|[->| ->]]; simpl; unfold same_type_in; rewrite Hn; reflexivity. }
    rewrite Hd. reflexivity.
Qed.

(** [add], [sub] and [mod] need [y] of the same type as [x] and return a
    Tensor of that type. *)
Theorem same_type_ops (w : World) (Hwf : wf w) :
  forall o x y name,
    (o = Add \/ o = Sub \/ o = Mod) ->
    (forall t w', binop_call o x y name w = Ok (t, w') ->
       t_dtype y = t_dtype x /\ t_dtype t = t_dtype x) /\
    (t_dtype y <> t_dtype x -> binop_call o x y name w = Err TypeError).
Proof.
  intros o x y name Ho.
  assert (Hts : exists ts, binop_dtype o (t_dtype x) (t_dtype y)
                           = same_type_in ts (t_dtype x) (t_dtype y)).
  { destruct Ho as [-> | [-> | ->]]; eexists; reflexivity. }
  destruct Hts as [ts Hts]. split.
  - intros t w' H.
    destruct (binop_call_result _ _ _ _ _ _ _ Hwf H) as (dt & sh & Hdt & _ & ->).
    rewrite Hts in Hdt. apply same_type_in_ok in Hdt as (-> & Hy & _). auto.
  - intros Hne. unfold binop_call. rewrite Hts, same_type_in_neq by exact Hne.
    reflexivity.
Qed.

(** String Tensors: [add] accepts them (returning a string Tensor) while
    [sub] rejects them with [TypeError]. *)
Theorem add_strings_sub_rejects (w : World) (x y : Tensor)
    (Hx : t_dtype x = string_) (Hy : t_dtype y = string_) :
  (forall name, binop_call Sub x y name w = Err TypeError) /\
  (forall sh, wf w -> broadcast (t_shape x) (t_shape y) = Ok sh ->
     t_graph y = t_graph x ->
     exists t w', add x y None w = Ok (t, w') /\ t_dtype t = string_ /\ t_shape t = sh).
Proof.
  split.
  - intros name. unfold binop_call. simpl. rewrite Hx. reflexivity.
  - intros sh Hwf Hsh Hg.
    assert (Hd : binop_dtype Add (t_dtype x) (t_dtype y) = Ok string_)
      by (rewrite Hx, Hy; reflexivity).
    destruct (binop_call_succeeds _ _ _ _ _ _ Hwf Hd Hsh Hg) as [w' Hc].
    eexists _, w'. split; [exact Hc|]. auto.
Qed.

(** [pow] accepts operands of two different listed types and returns a
    Tensor of [x]'s type. *)
Theorem pow_mixed_types (w : World) (Hwf : wf w) :
  (forall x y name t w', binop_call Pow x y name w = Ok (t, w') ->
     t_dtype t = t_dtype x /\ t_dtype x ∈ pow_types /\ t_dtype y ∈ pow_types) /\
  (forall x y sh, t_dtype x ∈ pow_types -> t_dtype y ∈ pow_types ->
     broadcast (t_shape x) (t_shape y) = Ok sh -> t_graph y = t_graph x ->
     exists t w', binop_call Pow x y None w = Ok (t, w') /\ t_dtype t = t_dtype x).
Proof.
  split.
  - intros x y name t w' H.
    destruct (binop_call_result _ _ _ _ _ _ _ Hwf H) as (dt & sh & Hdt & _ & ->).
    simpl in Hdt. unfold in_types in Hdt.
    destruct (bool_decide (t_dtype x ∈ pow_types)) eqn:Ha,
             (bool_decide (t_dtype y ∈ pow_types)) eqn:Hb; simpl in Hdt; try discriminate.
    injection Hdt as <-. apply bool_decide_eq_true in Ha, Hb. auto.
  - intros x y sh Ha Hb Hsh Hg.
    assert (Hd : binop_dtype Pow (t_dtype x) (t_dtype y) = Ok (t_dtype x)).
    { simpl. unfold in_types. rewrite !bool_decide_eq_true_2 by assumption. reflexivity. }
    destruct (binop_call_succeeds _ _ _ _ _ _ Hwf Hd Hsh Hg) as [w' Hc].
    eexists _, w'. split; [exact Hc|]. reflexivity.
Qed.

(** [div] and [floorDiv] take only real numeric types: complex, string and
    bool operands are a [TypeError]. *)
Theorem div_rejects_non_real (o : BinOp) (x y : Tensor) (name : option string) (w : World)
    (Ho : o = Div \/ o = FloorDiv)
    (Hx : t_dtype x ∈ [complex64; complex128; string_; bool_]) :
  binop_call o x y name w = Err TypeError.
Proof.
  unfold binop_call.
  assert (Hd : binop_dtype o (t_dtype x) (t_dtype y) = Err TypeError).
  { revert Hx. generalize (t_dtype x) (t_dtype y). intros a b Hx.
    apply list_elem_of_In in Hx. simpl in Hx.
    destruct Ho as [-> | ->];
      destruct Hx as [<- | [<- | [<- | [<- | []]]]]; reflexivity. }
  rewrite Hd. reflexivity.
Qed.

(** [matMul] returns a Tensor of the common type of [x] and [y], one of
    the listed types; any other type of [x] never succeeds. *)
Theorem matMul_dtype (w : World) (Hwf : wf w) :
  (forall x y ta tb aa ab asp bsp name t w',
     matMul x y ta tb aa ab asp bsp name w = Ok (t, w') ->
     t_dtype y = t_dtype x /\ t_dtype t = t_dtype x /\ t_dtype x ∈ matmul_types) /\
  (forall x y ta tb aa ab asp bsp name r,
     t_dtype x ∉ matmul_types -> matMul x y ta tb aa ab asp bsp name w <> Ok r).
Proof.
  split.
  - intros x y ta tb aa ab asp bsp name t w' H.
    destruct (matMul_result _ _ _ _ _ _ _ _ _ _ _ _ Hwf H) as [Hd _].
    apply same_type_in_ok in Hd as (-> & Hy & Hin). auto.
  - intros x y ta tb aa ab asp bsp name [t w'] Hn H.
    destruct (matMul_result _ _ _ _ _ _ _ _ _ _ _ _ Hwf H) as [Hd _].
    apply same_type_in_ok in Hd as (_ & _ & Hin). exact (Hn Hin).
Qed.

(** Every operator keeps the registered handles consistent with their
    operations, and the Tensor it returns is the registered handle of
    output [valueIndex] of its [op], with that output's dtype and shape and
    the operation's graph. *)
Theorem operators_keep_handles_consistent (w : World) (Hc : consistent w) :
  (forall o x y name t w', binop_call o x y name w = Ok (t, w') ->
     consistent w' /\ w_handles w' !! (t_op t, t_valueIndex t) = Some t /\
     exists op, w_ops w' !! t_op t = Some op /\
       o_outputs op !! t_valueIndex t = Some (t_dtype t, t_shape t) /\
       t_graph t = o_graph op) /\
  (forall u x name t w', unop_call u x name w = Ok (t, w') ->
     consistent w' /\ w_handles w' !! (t_op t, t_valueIndex t) = Some t /\
     exists op, w_ops w' !! t_op t = Some op /\
       o_outputs op !! t_valueIndex t = Some (t_dtype t, t_shape t) /\
       t_graph t = o_graph op) /\
  (forall x y ta tb aa ab asp bsp name t w',
     matMul x y ta tb aa ab asp bsp name w = Ok (t, w') ->
     consistent w' /\ w_handles w' !! (t_op t, t_valueIndex t) = Some t /\
     exists op, w_ops w' !! t_op t = Some op /\
       o_outputs op !! t_valueIndex t = Some (t_dtype t, t_shape t) /\
       t_graph t = o_graph op).
Proof.
  split; [|split].
  - intros o x y name t w' H. unfold binop_call in H. peel H.
    destruct a2 as [id w1].
    destruct (init_fresh_consistent w1 id a t w') as [Hc' Hreg];
      [eapply add_op_consistent; eauto | exact H |].
    split; [exact Hc'|]. split; [exact Hreg|]. apply consistent_handle; assumption.
  - intros u x name t w' H. unfold unop_call in H. peel H.
    destruct a0 as [id w1].
    destruct (init_fresh_consistent w1 id a t w') as [Hc' Hreg];
      [eapply add_op_consistent; eauto | exact H |].
    split; [exact Hc'|]. split; [exact Hreg|]. apply consistent_handle; assumption.
  - intros x y ta tb aa ab asp bsp name t w' H. unfold matMul in H. peel H.
    destruct a3 as [id w1].
    destruct (init_fresh_consistent w1 id a1 t w') as [Hc' Hreg];
      [eapply add_op_consistent; eauto | exact H |].
    split; [exact Hc'|]. split; [exact Hreg|]. apply consistent_handle; assumption.
Qed.

(* ------------------------------------------------------------------ *)
(** ** Instances of the further properties *)

Lemma wf_graph0 : wf graph0.
Proof. apply map_Forall_empty. Qed.

Lemma comparison_result_bool_witness :
  wf graph0 /\
  (forall t w', binop_call Gt x_f32 y_f32 None graph0 = Ok (t, w') -> t_dtype t = bool_).
Proof.
  split; [exact wf_graph0|].
  intros t w' H.
  exact (proj1 (comparison_result_bool graph0 wf_graph0 Gt x_f32 y_f32 None t w'
                  (or_intror (or_introl eq_refl)) H)).
Defined.

Lemma logical_ops_bool_witness :
  wf graph0 /\ binop_call And x_f32 y_f32 None graph0 = Err TypeError.
Proof.
  split; [exact wf_graph0|].
  apply (proj2 (logical_ops_bool graph0 wf_graph0 And x_f32 y_f32 None (or_introl eq_refl))).
  simpl. discriminate.
Defined.

Lemma same_type_ops_witness :
  wf graph0 /\ binop_call Mod x_f32 y_i32_g1 None graph0 = Err TypeError.
Proof.
  split; [exact wf_graph0|].
  apply (proj2 (same_type_ops graph0 wf_graph0 Mod x_f32 y_i32_g1 None
                  (or_intror (or_intror eq_refl)))).
  simpl. discriminate.
Defined.

Lemma add_strings_sub_rejects_witness :
  t_dtype x_str = string_ /\
  binop_call Sub x_str x_str None graph_str = Err TypeError.
Proof.
  split; [reflexivity|].
  exact (proj1 (add_strings_sub_rejects graph_str x_str x_str eq_refl eq_refl) None).
Defined.

Lemma pow_mixed_types_witness :
  wf graph0 /\
  (exists t w', binop_call Pow x_f32 (mkTensor 0 1 int32 (known [3]) 0) None graph0
                = Ok (t, w') /\ t_dtype t = float32).
Proof.
  split; [exact wf_graph0|].
  apply (proj2 (pow_mixed_types graph0 wf_graph0) x_f32 (mkTensor 0 1 int32 (known [3]) 0)
           (known [2; 3])); [apply list_elem_of_In; simpl; tauto | apply list_elem_of_In; simpl; tauto | reflexivity | reflexivity].
Defined.

Lemma div_rejects_non_real_witness :
  (Div = Div \/ Div = FloorDiv) /\ t_dtype x_c64 ∈ [complex64; complex128; string_; bool_] /\
  binop_call Div x_c64 x_c64 None graph_c64 = Err TypeError.
Proof.
  assert (Ho : Div = Div \/ Div = FloorDiv) by (left; reflexivity).
  assert (Hx : t_dtype x_c64 ∈ [complex64; complex128; string_; bool_]) by (apply list_elem_of_In; simpl; tauto).
  split; [exact Ho|]. split; [exact Hx|].
  exact (div_rejects_non_real Div x_c64 x_c64 None graph_c64 Ho Hx).
Defined.

Lemma matMul_dtype_witness :
  wf graph_mm /\
  exists t w', matMul x_f32 y_mat false false false false false false None graph_mm = Ok (t, w') /\
               t_dtype t = float32.
Proof.
  assert (Hwf : wf graph_mm) by apply map_Forall_empty.
  split; [exact Hwf|].
  destruct (matMul x_f32 y_mat false false false false false false None graph_mm)
    as [[t w']|e] eqn:E; [|vm_compute in E; discriminate].
  exists t, w'. split; [reflexivity|].
  exact (proj1 (proj2 (proj1 (matMul_dtype graph_mm Hwf) _ _ _ _ _ _ _ _ _ _ _ E))).
Defined.

Lemma operators_keep_handles_consistent_witness :
  consistent graph0 /\
  (forall t w', binop_call Add x_f32 y_f32 None graph0 = Ok (t, w') -> consistent w').
Proof.
  assert (Hc : consistent graph0) by apply map_Forall_empty.
  split; [exact Hc|].
  intros t w' H.
  exact (proj1 (proj1 (operators_keep_handles_consistent graph0 Hc) _ _ _ _ _ _ H)).
Defined.
